(** * Remapped snapshots for user-namespaced containers

    A shallow embedding of [snapshotter_opts_unix.go]: the container options
    [WithRemappedSnapshot], [WithMultiRemappedSnapshot] and their read-only
    variants, the orchestrator [withRemappedSnapshotBase] behind them, and
    the ownership walk [remapRootFS] / [chown].

    The snapshotter is a Go interface and is kept one here (a record of
    operations over the store's state); the file system is an inode table
    under a directory shape, so that hard links and symbolic links behave as
    they do on disk. *)

From Stdlib Require Import ZArith Lia DecimalString DecimalPos DecimalZ.
From Stdlib Require Import Ascii.
From stdpp Require Import base option list strings gmap.

Local Open Scope Z_scope.

(** ** Go values *)

(** [errdefs] classifies errors by kind; the message travels with it. *)
Inductive errkind :=
| NotFound
| AlreadyExists
| FailedPrecondition
| InvalidArgument
| Unavailable
| PermissionDenied
| NoMapping
| NoEntry
| NotPermitted
| NilDereference
| Unknown.

Record error := Err { kind : errkind; msg : string }.

#[global] Instance errkind_eq_dec : EqDecision errkind.
Proof. solve_decision. Defined.

#[global] Instance error_eq_dec : EqDecision error.
Proof. solve_decision. Defined.

(** [errdefs.IsNotFound]. *)
Definition IsNotFound (e : error) : bool :=
  match kind e with NotFound => true | _ => false end.

(** A Go result [(T, error)] where the value is only read when the error is
    nil. *)
Definition result (A : Type) : Type := A + error.

(** Go's [int] on the 64-bit targets: a conversion wraps into
    [-2^63, 2^63). *)
Definition int (z : Z) : Z := (z + 2 ^ 63) mod 2 ^ 64 - 2 ^ 63.

(** A [uint32] holds a value of [0, 2^32). *)
Definition is_uint32 (z : Z) : Prop := 0 <= z < 2 ^ 32.

(** The verb [%d] of [fmt.Sprintf]: the decimal digits, with a leading minus
    sign for a negative number. *)
Definition fmt_d (z : Z) : string := NilZero.string_of_int (Z.to_int z).

(** Reading a decimal numeral back, to say what [fmt_d] prints. *)
Definition parse_d (s : string) : option Z :=
  match NilZero.int_of_string s with
  | Some d => Some (Z.of_int d)
  | None => None
  end.

(** ** pkg/idtools *)

Module idtools.

Record IDMap := { ContainerID : Z; HostID : Z; Size : Z }.

Record IdentityMapping := { UIDMaps : list IDMap; GIDMaps : list IDMap }.

Record Identity := { UID : Z; GID : Z }.

#[global] Instance IDMap_eq_dec : EqDecision IDMap.
Proof. solve_decision. Defined.

#[global] Instance Identity_eq_dec : EqDecision Identity.
Proof. solve_decision. Defined.

#[global] Instance IdentityMapping_eq_dec : EqDecision IdentityMapping.
Proof. solve_decision. Defined.

(** The two methods of [IdentityMapping] that the options call.  Their
    bodies live in [pkg/idtools], outside this file, so the orchestrator and
    the walk are stated over any implementation of them. *)
Class Methods := {
  RootPair : IdentityMapping -> Identity;
  ToHost : IdentityMapping -> Identity -> Identity * option error
}.

(** Modelled from the spec: the body of the Ownership Translator
    ([pkg/idtools], not in this file).  One axis: the first range that covers
    the container-side value decides, the result is the host start plus the
    offset, and a value that no range covers has no mapping. *)
Fixpoint toHost (v : Z) (maps : list IDMap) : result Z :=
  match maps with
  | [] => inr (Err NoMapping "no mapping")
  | m :: rest =>
      if (ContainerID m <=? v) && (v <? ContainerID m + Size m)
      then inl (HostID m + (v - ContainerID m))
      else toHost v rest
  end.

(** Modelled from the spec: [ToHost] resolves the UID against the UID
    ranges and the GID against the GID ranges, independently. *)
Definition spec_ToHost (m : IdentityMapping) (p : Identity)
  : Identity * option error :=
  match toHost (UID p) (UIDMaps m) with
  | inr e => (p, Some e)
  | inl u =>
      match toHost (GID p) (GIDMaps m) with
      | inr e => (p, Some e)
      | inl g => ({| UID := u; GID := g |}, None)
      end
  end.

(** Modelled from the spec: the root pair is the host-side identity of
    container-side (0,0).  The spec leaves open what it is when a list has no
    range for 0; that component is -1 here. *)
Definition spec_RootPair (m : IdentityMapping) : Identity :=
  {| UID := match toHost 0 (UIDMaps m) with inl u => u | inr _ => -1 end;
     GID := match toHost 0 (GIDMaps m) with inl g => g | inr _ => -1 end |}.

Definition spec_methods : Methods :=
  {| RootPair := spec_RootPair; ToHost := spec_ToHost |}.

End idtools.

Import idtools.

(** The mapping of a single root pair: container 0 is host [uid] (resp.
    [gid]), length 1. *)
Definition singleton (uid gid : Z) : IdentityMapping :=
  {| UIDMaps := [ {| ContainerID := 0; HostID := uid; Size := 1 |} ];
     GIDMaps := [ {| ContainerID := 0; HostID := gid; Size := 1 |} ] |}.

(** ** The derived key *)

(** [fmt.Sprintf("%s-%d-%d", parent, rootMap.UID, rootMap.GID)]. *)
Definition Sprintf_s_d_d (s : string) (a b : Z) : string :=
  s +:+ "-" +:+ fmt_d a +:+ "-" +:+ fmt_d b.

(** Lines 156-157 of [withRemappedSnapshotBase]. *)
Definition usernsID `{Methods} (parent : string) (idmap : IdentityMapping)
  : string :=
  let rootMap := RootPair idmap in
  Sprintf_s_d_d parent (UID rootMap) (GID rootMap).

(** ** The file system under a mount *)

(** What [syscall.Stat_t] gives the walk: the owner of the inode. *)
Record Stat_t := { Ino : N; Uid : Z; Gid : Z }.

(** The shape of a mounted tree.  Every entry names its inode; a symbolic
    link also carries its target path and the inode that path resolves to
    (if any).  A directory carries the outcome of reading its names.  The
    walk only changes owners, so the shape stays fixed while it runs. *)
Inductive tree :=
| File (ino : N)
| Symlink (ino : N) (target : string) (resolved : option N)
| Dir (ino : N) (readdir : option error) (entries : forest)
with forest :=
| NoEntries
| Entry (name : string) (t : tree) (rest : forest).

Scheme tree_forest_ind := Induction for tree Sort Prop
  with forest_tree_ind := Induction for forest Sort Prop.

Combined Scheme tree_forest_mutind from tree_forest_ind, forest_tree_ind.

Definition ino_of (t : tree) : N :=
  match t with
  | File i => i
  | Symlink i _ _ => i
  | Dir i _ _ => i
  end.

(** The inode table: the owner (uid, gid) of each inode that exists, and the
    inodes whose owner cannot be changed. *)
Record FS := { owners : gmap N (Z * Z); immutable : gset N }.

(** [os.Lstat]: the metadata of the entry itself; it fails when the inode is
    gone. *)
Definition Lstat (path : string) (t : tree) (fs : FS) : result Stat_t :=
  match owners fs !! ino_of t with
  | Some (u, g) => inl {| Ino := ino_of t; Uid := u; Gid := g |}
  | None => inr (Err NoEntry ("lstat " +:+ path))
  end.

(** The kernel takes a 32-bit id and leaves the field alone when it is
    [(uid_t)-1]. *)
Definition chown_field (old new : Z) : Z :=
  let u := new mod 2 ^ 32 in
  if u =? 2 ^ 32 - 1 then old else u.

Definition set_owner (i : N) (uid gid : Z) (fs : FS) : FS * option error :=
  if decide (i ∈ immutable fs) then (fs, Some (Err NotPermitted "chown"))
  else
    match owners fs !! i with
    | None => (fs, Some (Err NoEntry "chown"))
    | Some (u, g) =>
        ({| owners := <[i := (chown_field u uid, chown_field g gid)]> (owners fs);
            immutable := immutable fs |}, None)
    end.

(** [os.Lchown]: the owner of the entry itself, also for a symbolic link. *)
Definition Lchown (path : string) (t : tree) (uid gid : Z) (fs : FS)
  : FS * option error :=
  set_owner (ino_of t) uid gid fs.

(** [os.Chown], which the code does not call: a symbolic link is followed. *)
Definition Chown (path : string) (t : tree) (uid gid : Z) (fs : FS)
  : FS * option error :=
  match t with
  | Symlink _ _ (Some j) => set_owner j uid gid fs
  | Symlink _ _ None => (fs, Some (Err NoEntry "chown"))
  | _ => set_owner (ino_of t) uid gid fs
  end.

(** ** path/filepath *)

Definition Join (dir name : string) : string := dir +:+ "/" +:+ name.

(** [filepath.WalkFunc]: the path, the entry it names, its [FileInfo] (nil
    when lstat failed) and the error met on the way to it. *)
Definition WalkFunc : Type :=
  string -> tree -> option Stat_t -> option error -> FS -> FS * option error.

(** [filepath.walk].  The names of a directory are read before the callback
    sees the directory; each child is lstat-ed when its turn comes.  The
    callbacks of this file never return [SkipDir] or [SkipAll] and the
    operating system never reports them, so the two sentinels are left
    out. *)
Fixpoint walk (fn : WalkFunc) (path : string) (t : tree) (info : Stat_t)
    (fs : FS) {struct t} : FS * option error :=
  match t with
  | Dir _ rd ents =>
      let '(fs1, err1) := fn path t (Some info) rd fs in
      match rd, err1 with
      | None, None => walkEntries fn path ents fs1
      | _, _ => (fs1, err1)
      end
  | _ => fn path t (Some info) None fs
  end
with walkEntries (fn : WalkFunc) (path : string) (ents : forest) (fs : FS)
    {struct ents} : FS * option error :=
  match ents with
  | NoEntries => (fs, None)
  | Entry name t rest =>
      let filename := Join path name in
      match Lstat filename t fs with
      | inr e =>
          match fn filename t None (Some e) fs with
          | (fs1, Some e1) => (fs1, Some e1)
          | (fs1, None) => walkEntries fn path rest fs1
          end
      | inl fileInfo =>
          match walk fn filename t fileInfo fs with
          | (fs1, Some e1) => (fs1, Some e1)
          | (fs1, None) => walkEntries fn path rest fs1
          end
      end
  end.

(** [filepath.Walk]. *)
Definition Walk (root : string) (t : tree) (fn : WalkFunc) (fs : FS)
  : FS * option error :=
  match Lstat root t fs with
  | inr e => fn root t None (Some e) fs
  | inl info => walk fn root t info fs
  end.

(** ** mount *)

Record Mount := { Type_ : string; Source : string; Options : list string }.

(** What mounting a mount list at a fresh temporary directory shows: the
    directory and the tree under it, or the error of the mount. *)
Class Mounter := { tempMount : list Mount -> result (string * tree) }.

(** Modelled from the spec: [mount.WithTempMount] (package [mount], not in
    this file) makes the content available at a path for the duration of the
    callback and unmounts afterwards whatever the callback returned; the
    callback's error is the result. *)
Definition WithTempMount `{Mounter} (mounts : list Mount)
    (f : string -> tree -> FS -> FS * option error) (fs : FS)
  : FS * option error :=
  match tempMount mounts with
  | inr e => (fs, Some e)
  | inl (root, t) => f root t fs
  end.

(** ** The ownership walk *)

(** [chown], lines 207-219. *)
Definition chown `{Methods} (root : string) (idmap : IdentityMapping)
  : WalkFunc :=
  fun path ent info err fs =>
    match err with
    | Some e => (fs, Some e)
    | None =>
        match info with
        | None => (fs, Some (Err NilDereference "info"))
        | Some stat =>
            let '(h, cerr) :=
              ToHost idmap {| UID := int (Uid stat); GID := int (Gid stat) |} in
            match cerr with
            | Some e => (fs, Some e)
            | None =>
                (* be sure the lchown the path as to not de-reference the
                   symlink to a host file *)
                Lchown path ent (UID h) (GID h) fs
            end
        end
    end.

(** [remapRootFS], lines 201-205. *)
Definition remapRootFS `{Methods} `{Mounter} (mounts : list Mount)
    (idmap : IdentityMapping) (fs : FS) : FS * option error :=
  WithTempMount mounts
    (fun root t => Walk root t (chown root idmap)) fs.

(** ** snapshots *)

Module snapshots.

Inductive Kind := KindView | KindActive | KindCommitted.

Record Info := { InfoKind : Kind; Parent : string }.

#[global] Instance Kind_eq_dec : EqDecision Kind.
Proof. solve_decision. Defined.

#[global] Instance Info_eq_dec : EqDecision Info.
Proof. solve_decision. Defined.

(** The interface [snapshots.Snapshotter], as far as the options use it,
    over the state [S] of the store behind it. *)
Record Snapshotter (S : Type) := {
  Stat : string -> S -> S * result Info;
  Prepare : string -> string -> S -> S * result (list Mount);
  View : string -> string -> S -> S * result (list Mount);
  Commit : string -> string -> S -> S * option error;
  Remove : string -> S -> S * option error
}.

Arguments Stat {S} _ _ _.
Arguments Prepare {S} _ _ _ _.
Arguments View {S} _ _ _ _.
Arguments Commit {S} _ _ _ _.
Arguments Remove {S} _ _ _.

End snapshots.

Import snapshots.

(** ** containers, images, the client *)

Module containers.

(** The fields of [containers.Container] that the options touch. *)
Record Container := {
  ID : string;
  Image : string;
  Snapshotter : string;
  SnapshotKey : string
}.

#[global] Instance Container_eq_dec : EqDecision Container.
Proof. solve_decision. Defined.

End containers.

(** An [Image]: its name and what resolving its root file system gives (the
    diff IDs, or an error). *)
Record Image := { Name : string; RootFS : result (list string) }.

(** [identity.ChainID(diffIDs).String()] of the image-spec library. *)
Class ChainIDer := { ChainID : list string -> string }.

(** The [Client], as far as the options use it.  Go's
    [resolveSnapshotterName] returns a name next to its error, and the name is
    stored before the error is looked at. *)
Record Client (S : Type) := {
  resolveSnapshotterName : string -> string * option error;
  getSnapshotter : string -> result (snapshots.Snapshotter S)
}.

Arguments resolveSnapshotterName {S} _ _.
Arguments getSnapshotter {S} _ _.

(** The state a container option runs against: the snapshot store and the
    file system. *)
Record World (S : Type) := { store : S; fs : FS }.

Arguments store {S} _.
Arguments fs {S} _.

(** [NewContainerOpts], with the container passed by reference turned into
    an argument and a result. *)
Definition NewContainerOpts (S : Type) : Type :=
  Client S -> containers.Container -> World S ->
  World S * containers.Container * option error.

(** ** The orchestrator *)

Section Orchestrator.

Context {S : Type} `{Methods} `{Mounter} `{ChainIDer}.

(** Lines 169-171 and 195-197: the binding of the container. *)
Definition bind (id : string) (i : Image) (c : containers.Container)
  : containers.Container :=
  {| containers.ID := containers.ID c;
     containers.Image := Name i;
     containers.Snapshotter := containers.Snapshotter c;
     containers.SnapshotKey := id |}.

(** Lines 176-197: building the remapped snapshot and the target on it. *)
Definition buildRemapped (snapshotter : snapshots.Snapshotter S)
    (id : string) (i : Image) (idmap : IdentityMapping) (readonly : bool)
    (parent usernsID : string) (c : containers.Container)
    (st : S) (f : FS)
  : World S * containers.Container * option error :=
  let '(st, mounts) := Prepare snapshotter (usernsID +:+ "-remap") parent st in
  match mounts with
  | inr err => ({| store := st; fs := f |}, c, Some err)
  | inl mounts =>
      match remapRootFS mounts idmap f with
      | (f, Some err) =>
          let '(st, _) := Remove snapshotter usernsID st in
          ({| store := st; fs := f |}, c, Some err)
      | (f, None) =>
          match Commit snapshotter usernsID (usernsID +:+ "-remap") st with
          | (st, Some err) => ({| store := st; fs := f |}, c, Some err)
          | (st, None) =>
              let '(st, r) :=
                if readonly then View snapshotter id usernsID st
                else Prepare snapshotter id usernsID st in
              match r with
              | inr err => ({| store := st; fs := f |}, c, Some err)
              | inl _ => ({| store := st; fs := f |}, bind id i c, None)
              end
          end
      end
  end.

(** [withRemappedSnapshotBase], lines 148-199. *)
Definition withRemappedSnapshotBase (id : string) (i : Image)
    (idmap : IdentityMapping) (readonly : bool) : NewContainerOpts S :=
  fun client c w =>
    match RootFS i with
    | inr err => (w, c, Some err)
    | inl diffIDs =>
        let parent := ChainID diffIDs in
        let usernsID := usernsID parent idmap in
        let '(name, err) :=
          resolveSnapshotterName client (containers.Snapshotter c) in
        let c :=
          {| containers.ID := containers.ID c;
             containers.Image := containers.Image c;
             containers.Snapshotter := name;
             containers.SnapshotKey := containers.SnapshotKey c |} in
        match err with
        | Some err => (w, c, Some err)
        | None =>
            match getSnapshotter client (containers.Snapshotter c) with
            | inr err => (w, c, Some err)
            | inl snapshotter =>
                match Stat snapshotter usernsID (store w) with
                | (st, inl _) =>
                    match Prepare snapshotter id usernsID st with
                    | (st, inl _) =>
                        ({| store := st; fs := fs w |}, bind id i c, None)
                    | (st, inr err) =>
                        if negb (IsNotFound err)
                        then ({| store := st; fs := fs w |}, c, Some err)
                        else buildRemapped snapshotter id i idmap readonly
                               parent usernsID c st (fs w)
                    end
                | (st, inr _) =>
                    buildRemapped snapshotter id i idmap readonly
                      parent usernsID c st (fs w)
                end
            end
        end
    end.

(** Lines 101-119. *)
Definition WithRemappedSnapshot (id : string) (i : Image) (uid gid : Z)
  : NewContainerOpts S :=
  let idmap :=
    {| UIDMaps := [ {| ContainerID := 0; HostID := int uid; Size := 1 |} ];
       GIDMaps := [ {| ContainerID := 0; HostID := int gid; Size := 1 |} ] |} in
  withRemappedSnapshotBase id i idmap false.

(** Lines 120-122. *)
Definition WithMultiRemappedSnapshot (id : string) (i : Image)
    (idmap : IdentityMapping) : NewContainerOpts S :=
  withRemappedSnapshotBase id i idmap false.

(** Lines 125-143. *)
Definition WithRemappedSnapshotView (id : string) (i : Image) (uid gid : Z)
  : NewContainerOpts S :=
  let idmap :=
    {| UIDMaps := [ {| ContainerID := 0; HostID := int uid; Size := 1 |} ];
       GIDMaps := [ {| ContainerID := 0; HostID := int gid; Size := 1 |} ] |} in
  withRemappedSnapshotBase id i idmap true.

(** Lines 144-146. *)
Definition WithMultiRemappedSnapshotView (id : string) (i : Image)
    (idmap : IdentityMapping) : NewContainerOpts S :=
  withRemappedSnapshotBase id i idmap true.

End Orchestrator.

(** ** Observing the calls to the store *)

Inductive call :=
| CStat (key : string)
| CPrepare (key parent : string)
| CView (key parent : string)
| CCommit (name key : string)
| CRemove (key : string).

(** A call and the error it returned ([None] for nil). *)
Record event := Ev { ev_call : call; ev_err : option error }.

#[global] Instance call_eq_dec : EqDecision call.
Proof. solve_decision. Defined.

#[global] Instance event_eq_dec : EqDecision event.
Proof. solve_decision. Defined.

Definition err_of {A : Type} (r : result A) : option error :=
  match r with inl _ => None | inr e => Some e end.

(** The same snapshotter with a log of the calls in front of its state. *)
Definition traced {S : Type} (sn : snapshots.Snapshotter S)
  : snapshots.Snapshotter (list event * S) :=
  {| Stat := fun key '(tr, s) =>
       let '(s', r) := Stat sn key s in
       ((tr ++ [Ev (CStat key) (err_of r)], s'), r);
     Prepare := fun key parent '(tr, s) =>
       let '(s', r) := Prepare sn key parent s in
       ((tr ++ [Ev (CPrepare key parent) (err_of r)], s'), r);
     View := fun key parent '(tr, s) =>
       let '(s', r) := View sn key parent s in
       ((tr ++ [Ev (CView key parent) (err_of r)], s'), r);
     Commit := fun name key '(tr, s) =>
       let '(s', r) := Commit sn name key s in
       ((tr ++ [Ev (CCommit name key) r], s'), r);
     Remove := fun key '(tr, s) =>
       let '(s', r) := Remove sn key s in
       ((tr ++ [Ev (CRemove key) r], s'), r) |}.

Definition tracedClient {S : Type} (client : Client S)
  : Client (list event * S) :=
  {| resolveSnapshotterName := resolveSnapshotterName client;
     getSnapshotter := fun name =>
       match getSnapshotter client name with
       | inl sn => inl (traced sn)
       | inr e => inr e
       end |}.

(** A run of an option with the calls logged: the log, the store behind it,
    the file system, the container and the error. *)
Definition observe {S : Type} (opt : NewContainerOpts (list event * S))
    (client : Client S) (c : containers.Container) (s : S) (f : FS)
  : list event * S * FS * containers.Container * option error :=
  let '(w, c', r) := opt (tracedClient client) c {| store := ([], s); fs := f |} in
  (fst (store w), snd (store w), fs w, c', r).

(** ** A snapshot store *)

Module memstore.

(** Modelled from the spec: the snapshot store (package [snapshots], not in
    this file) keeps, per key, the lifecycle state and the parent.  An active
    snapshot or a view is created on a committed parent (or on none, for the
    empty parent); committing turns an active snapshot into a committed one
    under a new name; a snapshot with children cannot be removed. *)
Definition create (k : Kind) (key parent : string) (s : gmap string Info)
  : gmap string Info * result (list Mount) :=
  match s !! key with
  | Some _ => (s, inr (Err AlreadyExists key))
  | None =>
      let mounts :=
        [ {| Type_ := "bind"; Source := key;
             Options := [ match k with KindView => "ro" | _ => "rw" end ] |} ] in
      if String.eqb parent "" then
        (<[key := {| InfoKind := k; Parent := parent |}]> s, inl mounts)
      else
        match s !! parent with
        | None => (s, inr (Err NotFound parent))
        | Some p =>
            match InfoKind p with
            | KindCommitted =>
                (<[key := {| InfoKind := k; Parent := parent |}]> s, inl mounts)
            | _ => (s, inr (Err InvalidArgument parent))
            end
        end
  end.

Definition stat (key : string) (s : gmap string Info)
  : gmap string Info * result Info :=
  match s !! key with
  | Some i => (s, inl i)
  | None => (s, inr (Err NotFound key))
  end.

Definition commit (name key : string) (s : gmap string Info)
  : gmap string Info * option error :=
  match s !! key with
  | None => (s, Some (Err NotFound key))
  | Some i =>
      match InfoKind i with
      | KindActive =>
          match s !! name with
          | Some _ => (s, Some (Err AlreadyExists name))
          | None =>
              (<[name := {| InfoKind := KindCommitted; Parent := Parent i |}]>
                 (delete key s), None)
          end
      | _ => (s, Some (Err FailedPrecondition key))
      end
  end.

Definition has_child (key : string) (s : gmap string Info) : bool :=
  bool_decide (map_Exists (fun _ i => Parent i = key) s).

Definition remove (key : string) (s : gmap string Info)
  : gmap string Info * option error :=
  match s !! key with
  | None => (s, Some (Err NotFound key))
  | Some _ =>
      if has_child key s then (s, Some (Err FailedPrecondition key))
      else (delete key s, None)
  end.

Definition snapshotter : snapshots.Snapshotter (gmap string Info) :=
  {| Stat := stat;
     Prepare := create KindActive;
     View := create KindView;
     Commit := commit;
     Remove := remove |}.

(** What can happen around a call when the store is shared and remote:
    nothing, another client committing a snapshot just before the call, or
    the call not reaching the store. *)
Inductive around :=
| Quiet
| OtherCommits (key parent : string)
| Outage (e : error).

Definition before (a : around) (s : gmap string Info) : gmap string Info :=
  match a with
  | OtherCommits key parent =>
      <[key := {| InfoKind := KindCommitted; Parent := parent |}]> s
  | _ => s
  end.

Definition next (sch : list around) : around * list around :=
  match sch with
  | [] => (Quiet, [])
  | a :: rest => (a, rest)
  end.

(** The store behind a schedule: each call takes the next entry of the
    schedule. *)
Definition shared : snapshots.Snapshotter (list around * gmap string Info) :=
  {| Stat := fun key '(sch, s) =>
       let '(a, sch) := next sch in
       match a with
       | Outage e => ((sch, s), inr e)
       | _ => let '(s, r) := stat key (before a s) in ((sch, s), r)
       end;
     Prepare := fun key parent '(sch, s) =>
       let '(a, sch) := next sch in
       match a with
       | Outage e => ((sch, s), inr e)
       | _ =>
           let '(s, r) := create KindActive key parent (before a s) in
           ((sch, s), r)
       end;
     View := fun key parent '(sch, s) =>
       let '(a, sch) := next sch in
       match a with
       | Outage e => ((sch, s), inr e)
       | _ =>
           let '(s, r) := create KindView key parent (before a s) in
           ((sch, s), r)
       end;
     Commit := fun name key '(sch, s) =>
       let '(a, sch) := next sch in
       match a with
       | Outage e => ((sch, s), Some e)
       | _ => let '(s, r) := commit name key (before a s) in ((sch, s), r)
       end;
     Remove := fun key '(sch, s) =>
       let '(a, sch) := next sch in
       match a with
       | Outage e => ((sch, s), Some e)
       | _ => let '(s, r) := remove key (before a s) in ((sch, s), r)
       end |}.

End memstore.

(** ** Sample inputs *)

Module sample.

(** The chain ID of a single layer is its diff ID; the samples have
    single-layer images only. *)
Definition chain : ChainIDer :=
  {| ChainID := fun diffIDs =>
       match diffIDs with [d] => d | _ => "" end |}.

Definition busybox : Image :=
  {| Name := "docker.io/library/busybox:latest";
     RootFS := inl ["sha256:abc"] |}.

(** Container 0 is host 1000, and nothing else is mapped. *)
Definition root1000 : IdentityMapping :=
  {| UIDMaps := [ {| ContainerID := 0; HostID := 1000; Size := 1 |} ];
     GIDMaps := [ {| ContainerID := 0; HostID := 1000; Size := 1 |} ] |}.

(** The same root pair, with a second range behind it. *)
Definition root1000_more : IdentityMapping :=
  {| UIDMaps := [ {| ContainerID := 0; HostID := 1000; Size := 1 |};
                  {| ContainerID := 1; HostID := 100000; Size := 65535 |} ];
     GIDMaps := [ {| ContainerID := 0; HostID := 1000; Size := 1 |};
                  {| ContainerID := 1; HostID := 100000; Size := 65535 |} ] |}.

(** A root file system: [/bin/sh], [/etc/hosts], and [/etc/passwd], a
    symbolic link to the host's [/etc/passwd] (inode 100, outside the
    tree). *)
Definition rootfs : tree :=
  Dir 1 None
    (Entry "bin" (Dir 2 None (Entry "sh" (File 3) NoEntries))
    (Entry "etc" (Dir 4 None
       (Entry "hosts" (File 5)
       (Entry "passwd" (Symlink 6 "/etc/passwd" (Some 100%N)) NoEntries)))
     NoEntries)).

Definition mounter : Mounter :=
  {| tempMount := fun mounts =>
       match mounts with
       | [_] => inl ("/tmp/containerd-mount1", rootfs)
       | _ => inr (Err InvalidArgument "mount")
       end |}.

(** Everything owned by container root. *)
Definition disk : FS :=
  {| owners := list_to_map
       [(1%N, (0, 0)); (2%N, (0, 0)); (3%N, (0, 0)); (4%N, (0, 0));
        (5%N, (0, 0)); (6%N, (0, 0)); (100%N, (0, 0))];
     immutable := ∅ |}.

(** [/etc/hosts] belongs to container user 5, which [root1000] does not
    map. *)
Definition disk_unmapped : FS :=
  {| owners := <[5%N := (5, 5)]> (owners disk); immutable := ∅ |}.

Definition overlayfs : string := "overlayfs".

(** A client whose default snapshotter is [overlayfs], served by [sn]. *)
Definition client {S : Type} (sn : snapshots.Snapshotter S) : Client S :=
  {| resolveSnapshotterName := fun name =>
       if String.eqb name "" then (overlayfs, None) else (name, None);
     getSnapshotter := fun name =>
       if String.eqb name overlayfs then inl sn
       else inr (Err NotFound name) |}.

(** A client that resolves the default name but has no snapshotter loaded
    under it. *)
Definition client_unloaded : Client (gmap string Info) :=
  {| resolveSnapshotterName := fun name =>
       if String.eqb name "" then (overlayfs, None) else (name, None);
     getSnapshotter := fun name => inr (Err NotFound name) |}.

Definition ctr (id : string) : containers.Container :=
  {| containers.ID := id;
     containers.Image := "";
     containers.Snapshotter := "";
     containers.SnapshotKey := "" |}.

Definition key : string := "sha256:abc-1000-1000".

(** The store with the base layer only, and with the remapped layer
    committed on it. *)
Definition base_only : gmap string Info :=
  {[ "sha256:abc" := {| InfoKind := KindCommitted; Parent := "" |} ]}.

Definition remapped : gmap string Info :=
  <[ key := {| InfoKind := KindCommitted; Parent := "sha256:abc" |} ]>
    base_only.

(** The remapped layer is there, and so is a snapshot under the target's
    name. *)
Definition remapped_taken : gmap string Info :=
  <[ "ctr1" := {| InfoKind := KindActive; Parent := key |} ]> remapped.

End sample.

(** ** The order of the walk *)

(** One call of the walk function: the path, the entry, and the outcome of
    reading the names when the entry is a directory. *)
Record visit := Visit { v_path : string; v_ent : tree; v_rd : option error }.

(** The calls a walk of [t] makes when none of them fails, in order: a
    directory before its entries, the entries in the order of their names,
    and nothing below a directory whose names cannot be read. *)
Fixpoint visits (path : string) (t : tree) {struct t} : list visit :=
  match t with
  | Dir _ rd ents =>
      Visit path t rd ::
        match rd with
        | None => visitsEntries path ents
        | Some _ => []
        end
  | _ => [Visit path t None]
  end
with visitsEntries (path : string) (ents : forest) {struct ents} : list visit :=
  match ents with
  | NoEntries => []
  | Entry name t rest => visits (Join path name) t ++ visitsEntries path rest
  end.

(** One call: lstat, then the walk function. *)
Definition visitOne (fn : WalkFunc) (v : visit) (fs : FS) : FS * option error :=
  match Lstat (v_path v) (v_ent v) fs with
  | inr e => fn (v_path v) (v_ent v) None (Some e) fs
  | inl info => fn (v_path v) (v_ent v) (Some info) (v_rd v) fs
  end.

(** The calls one after the other, up to the first that returns an error. *)
Fixpoint runVisits (fn : WalkFunc) (vs : list visit) (fs : FS)
  : FS * option error :=
  match vs with
  | [] => (fs, None)
  | v :: rest =>
      match visitOne fn v fs with
      | (fs1, Some e) => (fs1, Some e)
      | (fs1, None) => runVisits fn rest fs1
      end
  end.

(** A walk function that hands back the error it is given, untouched. *)
Definition propagates (fn : WalkFunc) : Prop :=
  forall path ent info e fs, fn path ent info (Some e) fs = (fs, Some e).

(** The error that reading the metadata of the entry (lstat, or the names of
    a directory) or translating its owner gives at a visit, if any. *)
Definition visitError `{Methods} (idmap : IdentityMapping) (v : visit)
    (fs : FS) : option error :=
  match Lstat (v_path v) (v_ent v) fs with
  | inr e => Some e
  | inl stat =>
      match v_rd v with
      | Some e => Some e
      | None =>
          snd (ToHost idmap {| UID := int (Uid stat); GID := int (Gid stat) |})
      end
  end.

(** The inodes of a tree. *)
Fixpoint inodes (t : tree) {struct t} : list N :=
  match t with
  | Dir i _ ents => i :: inodesEntries ents
  | _ => [ino_of t]
  end
with inodesEntries (ents : forest) {struct ents} : list N :=
  match ents with
  | NoEntries => []
  | Entry _ t rest => inodes t ++ inodesEntries rest
  end.

(** The entries of a tree, itself included. *)
Fixpoint subtrees (t : tree) {struct t} : list tree :=
  match t with
  | Dir _ _ ents => t :: subtreesEntries ents
  | _ => [t]
  end
with subtreesEntries (ents : forest) {struct ents} : list tree :=
  match ents with
  | NoEntries => []
  | Entry _ t rest => subtrees t ++ subtreesEntries rest
  end.

(** ** Labels for snapshotters that remap by themselves *)

(** [fmt.Sprintf("%d:%d:%d", a, b, c)]. *)
Definition Sprintf_d_d_d (a b c : Z) : string :=
  fmt_d a +:+ ":" +:+ fmt_d b +:+ ":" +:+ fmt_d c.

(** What the label builders need from package [snapshots] and from
    [encoding/json]: the two label keys (two constants of a map literal, so
    different strings), the option type with [WithLabels], and [json.Marshal]
    at the type of a list of ranges. *)
Class Labelling := {
  LabelSnapshotUIDMapping : string;
  LabelSnapshotGIDMapping : string;
  Opt : Type;
  WithLabels : gmap string string -> Opt;
  Marshal : list IDMap -> result string
}.

(** The map literal of [WithRemapperLabels], lines 38-40. *)
Definition remapperLabels `{Labelling} (ctrUID hostUID ctrGID hostGID length : Z)
  : gmap string string :=
  <[LabelSnapshotGIDMapping := Sprintf_d_d_d ctrGID hostGID length]>
    (<[LabelSnapshotUIDMapping := Sprintf_d_d_d ctrUID hostUID length]> ∅).

(** [WithRemapperLabels], lines 37-41. *)
Definition WithRemapperLabels `{Labelling}
    (ctrUID hostUID ctrGID hostGID length : Z) : Opt :=
  WithLabels (remapperLabels ctrUID hostUID ctrGID hostGID length).

(** The map that [WithMultiRemapperLabels] passes to [WithLabels], lines
    44-57: empty as soon as one of the two lists does not marshal. *)
Definition multiRemapperLabels `{Labelling} (idmap : IdentityMapping)
  : gmap string string :=
  match Marshal (UIDMaps idmap) with
  | inr _ => ∅
  | inl uidMap =>
      match Marshal (GIDMaps idmap) with
      | inr _ => ∅
      | inl gidMap =>
          <[LabelSnapshotGIDMapping := gidMap]>
            (<[LabelSnapshotUIDMapping := uidMap]> ∅)
      end
  end.

(** [WithMultiRemapperLabels], lines 43-59. *)
Definition WithMultiRemapperLabels `{Labelling} (idmap : IdentityMapping)
  : Opt :=
  WithLabels (multiRemapperLabels idmap).

(** [resolveSnapshotOptions], lines 61-64: the snapshotter remaps, so the
    parent is kept. *)
Definition resolveSnapshotOptions {S : Type} `{Labelling} (client : Client S)
    (snapshotterName : string) (snapshotter : snapshots.Snapshotter S)
    (parent : string) (opts : list Opt) : string * option error :=
  (parent, None).

(** ** Reading labels and keys back *)

(** The part of a string before the first [sep], and the part after it when
    there is one. *)
Fixpoint split_at (sep : Ascii.ascii) (s : string) : string * option string :=
  match s with
  | EmptyString => (EmptyString, None)
  | String a rest =>
      if Ascii.eqb a sep then (EmptyString, Some rest)
      else
        let '(h, t) := split_at sep rest in
        (String a h, t)
  end.

(** [sep] does not occur in [s]. *)
Fixpoint free_of (sep : Ascii.ascii) (s : string) : bool :=
  match s with
  | EmptyString => true
  | String a rest => negb (Ascii.eqb a sep) && free_of sep rest
  end.

(** A label value ["c:h:l"] read back as its three numbers. *)
Definition parse_label (s : string) : option (Z * Z * Z) :=
  match split_at ":"%char s with
  | (a, Some r) =>
      match split_at ":"%char r with
      | (b, Some c) =>
          match parse_d a, parse_d b, parse_d c with
          | Some a, Some b, Some c => Some (a, b, c)
          | _, _, _ => None
          end
      | _ => None
      end
  | _ => None
  end.

(** A decimal numeral, with its sign, up to the next dash. *)
Definition split_number (s : string) : string * option string :=
  match s with
  | String "-"%char r => let '(h, t) := split_at "-"%char r in (String "-" h, t)
  | _ => split_at "-"%char s
  end.

(** A derived key read back as the parent chain and the root pair, for a
    parent chain without a dash (a digest has none). *)
Definition parse_key (s : string) : option (string * Identity) :=
  match split_at "-"%char s with
  | (parent, Some r) =>
      match split_number r with
      | (u, Some g) =>
          match parse_d u, parse_d g with
          | Some u, Some g => Some (parent, {| UID := u; GID := g |})
          | _, _ => None
          end
      | _ => None
      end
  | _ => None
  end.

(** The calls a run may make: on the cache key, on the transient snapshot
    beside it, and on the target. *)
Definition allowed_call (id key parent : string) (cl : call) : Prop :=
  cl = CStat key
  \/ cl = CPrepare id key
  \/ cl = CView id key
  \/ cl = CPrepare (key +:+ "-remap") parent
  \/ cl = CCommit key (key +:+ "-remap")
  \/ cl = CRemove key.

(** The usual values of the two label keys, and a rendering of a list of
    ranges to try the label builders on. *)
Module sample_labels.

Definition render (m : IDMap) : string :=
  "{" +:+ fmt_d (ContainerID m) +:+ "," +:+ fmt_d (HostID m) +:+ ","
      +:+ fmt_d (Size m) +:+ "}".

Definition labelling : Labelling :=
  {| LabelSnapshotUIDMapping := "containerd.io/snapshot/uidmapping";
     LabelSnapshotGIDMapping := "containerd.io/snapshot/gidmapping";
     Opt := gmap string string;
     WithLabels := fun labels => labels;
     Marshal := fun maps => inl (String.concat "," (map render maps)) |}.

End sample_labels.

(** The inode [i] has, in [fs'], the translation of the owner it had in
    [fs]. *)
Definition reowned `{Methods} (idmap : IdentityMapping) (fs fs' : FS) (i : N)
  : Prop :=
  exists u g h,
    owners fs !! i = Some (u, g)
    /\ ToHost idmap {| UID := int u; GID := int g |} = (h, None)
    /\ owners fs' !! i = Some (chown_field u (UID h), chown_field g (GID h)).

(** A directory with one file under two names (a hard link), and a mapping
    that also covers the host side of its first range. *)
Module sample_links.

Definition linked : tree :=
  Dir 1 None (Entry "a" (File 2) (Entry "b" (File 2) NoEntries)).

Definition twice : IdentityMapping :=
  {| UIDMaps := [ {| ContainerID := 0; HostID := 1000; Size := 1 |};
                  {| ContainerID := 1000; HostID := 2000; Size := 1 |} ];
     GIDMaps := [ {| ContainerID := 0; HostID := 1000; Size := 1 |};
                  {| ContainerID := 1000; HostID := 2000; Size := 1 |} ] |}.

(** Everything owned by container root. *)
Definition disk_root : FS :=
  {| owners := list_to_map [(1%N, (0, 0)); (2%N, (0, 0))];
     immutable := ∅ |}.

End sample_links.

(** * Properties *)

(** ** Go values *)

Lemma int_uint32 (u : Z) : is_uint32 u -> int u = u.
Proof.
  unfold is_uint32, int. intros Hu.
  rewrite Z.mod_small; lia.
Qed.

Lemma parse_fmt_d (z : Z) : parse_d (fmt_d z) = Some z.
Proof.
  unfold parse_d, fmt_d.
  rewrite NilZero.isi.
  - now rewrite DecimalZ.of_to.
  - destruct z as [|p|p]; simpl; try discriminate.
    intros [= Hp]. now apply (DecimalPos.Unsigned.to_uint_nonnil p).
  - destruct z as [|p|p]; simpl; try discriminate.
    intros [= Hp]. now apply (DecimalPos.Unsigned.to_uint_nonnil p).
Qed.

(** ** The derived key *)

(** C5: the derived key of a parent chain [c] and a mapping whose root pair
    is [(hostUID, hostGID)] is [c], a dash, [hostUID] in decimal, a dash and
    [hostGID] in decimal (the decimal strings read back as the two numbers),
    and deriving it again from equal inputs gives the same key. *)
Theorem usernsID_format `{Methods} (c : string) (idmap : IdentityMapping)
    (hostUID hostGID : Z) :
  RootPair idmap = {| UID := hostUID; GID := hostGID |} ->
  usernsID c idmap = c +:+ "-" +:+ fmt_d hostUID +:+ "-" +:+ fmt_d hostGID
  /\ parse_d (fmt_d hostUID) = Some hostUID
  /\ parse_d (fmt_d hostGID) = Some hostGID
  /\ (forall c' idmap', c' = c -> idmap' = idmap ->
        usernsID c' idmap' = usernsID c idmap).
Proof.
  intros Hroot. repeat split.
  - unfold usernsID, Sprintf_s_d_d. now rewrite Hroot.
  - apply parse_fmt_d.
  - apply parse_fmt_d.
  - now intros c' idmap' -> ->.
Qed.

(** The end-to-end example of the key. *)
Lemma usernsID_format_witness :
  @usernsID spec_methods "sha256:abc" sample.root1000 = "sha256:abc-1000-1000".
Proof.
  exact (proj1 (@usernsID_format spec_methods "sha256:abc" sample.root1000
                  1000 1000 eq_refl)).
Defined.

(** C9: two mappings with the same root pair and the same parent have the
    same derived key, whatever their other ranges are. *)
Theorem usernsID_root_pair_only `{Methods} (parent : string)
    (m1 m2 : IdentityMapping) :
  RootPair m1 = RootPair m2 ->
  usernsID parent m1 = usernsID parent m2.
Proof.
  intros Hroot. unfold usernsID. now rewrite Hroot.
Qed.

(** Two different mappings with the root pair (1000, 1000). *)
Lemma usernsID_root_pair_only_witness :
  sample.root1000 <> sample.root1000_more
  /\ @usernsID spec_methods "sha256:abc" sample.root1000
     = @usernsID spec_methods "sha256:abc" sample.root1000_more.
Proof.
  split.
  - discriminate.
  - exact (@usernsID_root_pair_only spec_methods "sha256:abc"
             sample.root1000 sample.root1000_more eq_refl).
Defined.

(** ** The four options *)

(** C10: for uint32 [uid] and [gid], [WithRemappedSnapshot] is
    [WithMultiRemappedSnapshot] at the singleton mapping, and
    [WithRemappedSnapshotView] is [WithMultiRemappedSnapshotView] at it; the
    four are [withRemappedSnapshotBase] at their mapping with the read-only
    flag off, off, on and on. *)
Theorem WithRemappedSnapshot_singleton {S : Type} `{Methods} `{Mounter}
    `{ChainIDer} (id : string) (i : Image) (uid gid : Z)
    (idmap : IdentityMapping) :
  is_uint32 uid -> is_uint32 gid ->
  WithRemappedSnapshot (S := S) id i uid gid
    = WithMultiRemappedSnapshot id i (singleton uid gid)
  /\ WithRemappedSnapshotView (S := S) id i uid gid
     = WithMultiRemappedSnapshotView id i (singleton uid gid)
  /\ WithRemappedSnapshot (S := S) id i uid gid
     = withRemappedSnapshotBase id i (singleton uid gid) false
  /\ WithMultiRemappedSnapshot (S := S) id i idmap
     = withRemappedSnapshotBase id i idmap false
  /\ WithRemappedSnapshotView (S := S) id i uid gid
     = withRemappedSnapshotBase id i (singleton uid gid) true
  /\ WithMultiRemappedSnapshotView (S := S) id i idmap
     = withRemappedSnapshotBase id i idmap true.
Proof.
  intros Hu Hg.
  unfold WithRemappedSnapshot, WithRemappedSnapshotView,
    WithMultiRemappedSnapshot, WithMultiRemappedSnapshotView, singleton.
  rewrite (int_uint32 uid Hu), (int_uint32 gid Hg).
  repeat split.
Qed.

(** ** The walk *)

Lemma chown_propagates `{Methods} (root : string) (idmap : IdentityMapping) :
  propagates (chown root idmap).
Proof. intros path ent info e fs. reflexivity. Qed.

Lemma runVisits_app (fn : WalkFunc) (vs ws : list visit) (fs : FS) :
  runVisits fn (vs ++ ws) fs =
  match runVisits fn vs fs with
  | (fs1, Some e) => (fs1, Some e)
  | (fs1, None) => runVisits fn ws fs1
  end.
Proof.
  revert fs. induction vs as [|v vs IH]; intros fs; simpl.
  - reflexivity.
  - destruct (visitOne fn v fs) as [fs1 [e|]]; [reflexivity|apply IH].
Qed.

Lemma visits_head (path : string) (t : tree) :
  exists rd vs, visits path t = Visit path t rd :: vs.
Proof. destruct t; simpl; eauto. Qed.

Lemma walk_visits (fn : WalkFunc) (Hfn : propagates fn) :
  (forall t path info fs,
      Lstat path t fs = inl info ->
      walk fn path t info fs = runVisits fn (visits path t) fs)
  /\ (forall ents path fs,
      walkEntries fn path ents fs = runVisits fn (visitsEntries path ents) fs).
Proof.
  apply tree_forest_mutind.
  - intros i path info fs Hl. simpl. unfold visitOne. simpl. rewrite Hl.
    now destruct (fn path (File i) (Some info) None fs) as [fs1 [e|]].
  - intros i tgt r path info fs Hl. simpl. unfold visitOne. simpl. rewrite Hl.
    now destruct (fn path (Symlink i tgt r) (Some info) None fs) as [fs1 [e|]].
  - intros i rd ents IH path info fs Hl. simpl. unfold visitOne. simpl.
    rewrite Hl. destruct rd as [e|].
    + now rewrite Hfn.
    + destruct (fn path (Dir i None ents) (Some info) None fs) as [fs1 [e|]];
        [reflexivity|apply IH].
  - reflexivity.
  - intros name t IHt rest IHrest path fs. simpl. rewrite runVisits_app.
    destruct (Lstat (Join path name) t fs) as [info|e] eqn:Hl.
    + rewrite (IHt _ _ _ Hl).
      destruct (runVisits fn (visits (Join path name) t) fs) as [fs1 [e|]];
        [reflexivity|apply IHrest].
    + destruct (visits_head (Join path name) t) as (rd & vs & ->).
      simpl. unfold visitOne. simpl. rewrite Hl. now rewrite Hfn.
  Qed.

Lemma Walk_visits (fn : WalkFunc) (Hfn : propagates fn) (root : string)
    (t : tree) (fs : FS) :
  Walk root t fn fs = runVisits fn (visits root t) fs.
Proof.
  unfold Walk. destruct (Lstat root t fs) as [info|e] eqn:Hl.
  - now apply walk_visits.
  - destruct (visits_head root t) as (rd & vs & ->).
    simpl. unfold visitOne. simpl. rewrite Hl. now rewrite Hfn.
Qed.

Lemma visitError_chown `{Methods} (root : string) (idmap : IdentityMapping)
    (v : visit) (fs : FS) (e : error) :
  visitError idmap v fs = Some e ->
  visitOne (chown root idmap) v fs = (fs, Some e).
Proof.
  unfold visitError, visitOne, chown.
  destruct (Lstat (v_path v) (v_ent v) fs) as [stat|e1].
  - destruct (v_rd v) as [e2|].
    + now intros [= ->].
    + destruct (ToHost idmap _) as [h [e3|]]; simpl; [now intros [= ->]|discriminate].
  - now intros [= ->].
Qed.

(** C7: in the walk of a tree, at the first entry (in the order of the walk,
    every earlier call having succeeded) where reading the metadata fails or
    the translation of the owner fails, the walk stops: [filepath.Walk]
    returns that error, no later entry is touched, and [remapRootFS] returns
    the same error. *)
Theorem walk_aborts_on_first_error `{Methods} `{Mounter} (root : string)
    (t : tree) (idmap : IdentityMapping) (fs fs1 : FS)
    (pre post : list visit) (v : visit) (e : error) :
  visits root t = pre ++ v :: post ->
  runVisits (chown root idmap) pre fs = (fs1, None) ->
  visitError idmap v fs1 = Some e ->
  Walk root t (chown root idmap) fs = (fs1, Some e)
  /\ (forall mounts, tempMount mounts = inl (root, t) ->
        remapRootFS mounts idmap fs = (fs1, Some e)).
Proof.
  intros Hvs Hpre Herr.
  assert (HW : Walk root t (chown root idmap) fs = (fs1, Some e)).
  { rewrite (Walk_visits _ (chown_propagates root idmap)), Hvs.
    rewrite runVisits_app, Hpre. simpl.
    now rewrite (visitError_chown root idmap v fs1 e Herr). }
  split; [exact HW|].
  intros mounts Hm. unfold remapRootFS, WithTempMount. now rewrite Hm.
Qed.

(** ** What a chown touches *)

Lemma set_owner_frame (i j : N) (uid gid : Z) (fs fs' : FS) (e : option error) :
  set_owner i uid gid fs = (fs', e) ->
  j <> i ->
  owners fs' !! j = owners fs !! j.
Proof.
  unfold set_owner. intros Hset Hj.
  destruct (decide (i ∈ immutable fs)).
  - now injection Hset as <- _.
  - destruct (owners fs !! i) as [[u g]|].
    + injection Hset as <- _. simpl. now rewrite lookup_insert_ne.
    + now injection Hset as <- _.
Qed.

Lemma chown_frame `{Methods} (root : string) (idmap : IdentityMapping)
    (path : string) (ent : tree) (info : option Stat_t) (err : option error)
    (fs fs' : FS) (e : option error) (j : N) :
  chown root idmap path ent info err fs = (fs', e) ->
  j <> ino_of ent ->
  owners fs' !! j = owners fs !! j.
Proof.
  unfold chown. intros Hc Hj.
  destruct err as [e1|]; [now injection Hc as <- _|].
  destruct info as [stat|]; [|now injection Hc as <- _].
  destruct (ToHost idmap _) as [h [e2|]]; [now injection Hc as <- _|].
  unfold Lchown in Hc. eapply set_owner_frame; eauto.
Qed.

Lemma runVisits_frame `{Methods} (root : string) (idmap : IdentityMapping)
    (j : N) (vs : list visit) :
  forall fs fs' e,
    runVisits (chown root idmap) vs fs = (fs', e) ->
    (forall v, v ∈ vs -> ino_of (v_ent v) <> j) ->
    owners fs' !! j = owners fs !! j.
Proof.
  induction vs as [|v vs IH]; intros fs fs' e Hrun Hvs; simpl in Hrun.
  - now injection Hrun as <- _.
  - assert (Hv : j <> ino_of (v_ent v)).
    { intros ->. eapply Hvs; [left|reflexivity]. }
    destruct (visitOne (chown root idmap) v fs) as [fs1 [e1|]] eqn:Hone.
    + injection Hrun as <- _. unfold visitOne in Hone.
      destruct (Lstat (v_path v) (v_ent v) fs); eapply chown_frame; eauto.
    + transitivity (owners fs1 !! j).
      * eapply IH; eauto. intros w Hw. apply Hvs. now right.
      * unfold visitOne in Hone.
        destruct (Lstat (v_path v) (v_ent v) fs); eapply chown_frame; eauto.
Qed.

Lemma visits_inodes :
  (forall t path v, v ∈ visits path t -> ino_of (v_ent v) ∈ inodes t)
  /\ (forall ents path v,
        v ∈ visitsEntries path ents -> ino_of (v_ent v) ∈ inodesEntries ents).
Proof.
  apply tree_forest_mutind.
  - intros i path v Hv. simpl in *. apply list_elem_of_singleton in Hv as ->.
    simpl. left.
  - intros i tgt r path v Hv. simpl in *.
    apply list_elem_of_singleton in Hv as ->. simpl. left.
  - intros i rd ents IH path v Hv. simpl in *.
    apply elem_of_cons in Hv as [->|Hv]; [simpl; left|].
    right. destruct rd; [now apply elem_of_nil in Hv|]. eapply IH; eauto.
  - intros path v Hv. now apply elem_of_nil in Hv.
  - intros name t IHt rest IHrest path v Hv. simpl in *.
    apply elem_of_app in Hv as [Hv|Hv]; apply elem_of_app; eauto.
Qed.

Lemma Walk_frame `{Methods} (root : string) (idmap : IdentityMapping)
    (t : tree) (fs fs' : FS) (e : option error) (j : N) :
  Walk root t (chown root idmap) fs = (fs', e) ->
  j ∉ inodes t ->
  owners fs' !! j = owners fs !! j.
Proof.
  rewrite (Walk_visits _ (chown_propagates root idmap)). intros Hrun Hj.
  eapply runVisits_frame; eauto.
  intros v Hv <-. apply Hj. eapply visits_inodes; eauto.
Qed.


(** [os.Chown] in the place of [os.Lchown] would reach through the link: on
    the sample tree it changes the owner of the host's file. *)
Example Chown_follows_the_link :
  owners (fst (Chown "/etc/passwd" (Symlink 6 "/etc/passwd" (Some 100%N))
                 1000 1000 sample.disk)) !! 100%N = Some (1000, 1000)
  /\ owners (fst (Lchown "/etc/passwd" (Symlink 6 "/etc/passwd" (Some 100%N))
                    1000 1000 sample.disk)) !! 100%N = Some (0, 0).
Proof. vm_compute. split; reflexivity. Qed.

(** ** The orchestrator *)

(** Case analysis on the outcome of every call of a run. *)
Ltac run_cases :=
  repeat match goal with
  | H : context [match ?x with _ => _ end] |- _ =>
      lazymatch x with
      | context [match _ with _ => _ end] => fail
      | _ => destruct x eqn:?; simpl in H
      end
  end.

Ltac run_paths Hrun :=
  unfold observe, withRemappedSnapshotBase, buildRemapped in Hrun;
  match type of Hrun with
  | context [RootFS ?i] =>
      let diffIDs := fresh "diffIDs" in
      let e := fresh "e" in
      destruct (RootFS i) as [diffIDs|e] eqn:?;
      [ set (key := usernsID (ChainID diffIDs) _) in Hrun
      | idtac ]
  end;
  simpl in Hrun; run_cases; simplify_eq; simpl.

(** The only snapshot a run ever removes is the one under the cache key. *)
Lemma remove_targets_cache_key {S : Type} `{Methods} `{Mounter} `{ChainIDer}
    (id : string) (i : Image) (idmap : IdentityMapping) (readonly : bool)
    (client : Client S) (c : containers.Container) (s : S) (f : FS)
    (tr : list event) (s' : S) (f' : FS) (c' : containers.Container)
    (r : option error) (k : string) (e : option error) :
  observe (withRemappedSnapshotBase id i idmap readonly) client c s f
    = (tr, s', f', c', r) ->
  Ev (CRemove k) e ∈ tr ->
  exists diffIDs,
    RootFS i = inl diffIDs /\ k = usernsID (ChainID diffIDs) idmap.
Proof.
  intros Hrun Hin. run_paths Hrun;
    repeat (apply elem_of_cons in Hin as [Hin|Hin]; simplify_eq);
    try (now apply elem_of_nil in Hin);
    eexists; split; reflexivity.
Qed.

(** The log is only an observer: the run behind [observe] is the run of the
    option against the client itself. *)
Lemma observe_erase {S : Type} `{Methods} `{Mounter} `{ChainIDer}
    (id : string) (i : Image) (idmap : IdentityMapping) (readonly : bool)
    (client : Client S) (c : containers.Container) (s : S) (f : FS)
    (tr : list event) (s' : S) (f' : FS) (c' : containers.Container)
    (r : option error) :
  observe (withRemappedSnapshotBase id i idmap readonly) client c s f
    = (tr, s', f', c', r) ->
  withRemappedSnapshotBase id i idmap readonly client c
    {| store := s; fs := f |}
  = ({| store := s'; fs := f' |}, c', r).
Proof.
  intros Hrun. run_paths Hrun; try subst key;
    unfold withRemappedSnapshotBase, buildRemapped; simpl;
    repeat match goal with
           | Heq : ?x = _ |- context [?x] => rewrite Heq; simpl
           end;
    reflexivity.
Qed.

(** On a cache hit the call after the Stat is a Prepare of the target on the
    cache key, in both modes. *)
Lemma cache_hit_prepares {S : Type} `{Methods} `{Mounter} `{ChainIDer}
    (id : string) (i : Image) (idmap : IdentityMapping) (readonly : bool)
    (client : Client S) (c : containers.Container) (s : S) (f : FS)
    (tr : list event) (s' : S) (f' : FS) (c' : containers.Container)
    (r : option error) (k : string) :
  observe (withRemappedSnapshotBase id i idmap readonly) client c s f
    = (tr, s', f', c', r) ->
  tr !! 0%nat = Some (Ev (CStat k) None) ->
  exists pe, tr !! 1%nat = Some (Ev (CPrepare id k) pe).
Proof.
  intros Hrun Hhd. run_paths Hrun; simpl in Hhd; simplify_eq;
    eexists; reflexivity.
Qed.


(** C3 (amended): when the Commit of the transient snapshot under the cache
    key fails, the run ends there: the error of the Commit is the result, and
    the failed Commit is the last call to the store (no existence check
    follows it). *)
Theorem commit_failure_is_fatal {S : Type} `{Methods} `{Mounter} `{ChainIDer}
    (id : string) (i : Image) (idmap : IdentityMapping) (readonly : bool)
    (client : Client S) (c : containers.Container) (s : S) (f : FS)
    (tr : list event) (s' : S) (f' : FS) (c' : containers.Container)
    (r : option error) (name k : string) (e : error) :
  observe (withRemappedSnapshotBase id i idmap readonly) client c s f
    = (tr, s', f', c', r) ->
  Ev (CCommit name k) (Some e) ∈ tr ->
  r = Some e /\ last tr = Some (Ev (CCommit name k) (Some e)).
Proof.
  intros Hrun Hin. run_paths Hrun;
    repeat (apply elem_of_cons in Hin as [Hin|Hin]; simplify_eq);
    try (now apply elem_of_nil in Hin);
    split; reflexivity.
Qed.


(** ** The runs on the sample store *)

#[local] Existing Instance spec_methods.
#[local] Existing Instance sample.mounter.
#[local] Existing Instance sample.chain.

(** C1 (the code on a cache hit in read-only mode): with the remapped layer
    committed under the cache key, [WithRemappedSnapshotView] calls Stat and
    then Prepare, not View, and the target is an active snapshot; on a miss
    the same option ends with View and the target is a view. *)
Theorem cache_hit_ignores_readonly :
  (let '(tr, s', _, _, r) :=
     observe (WithRemappedSnapshotView "ctr2" sample.busybox 1000 1000)
       (sample.client memstore.snapshotter) (sample.ctr "ctr2")
       sample.remapped sample.disk in
   tr = [ Ev (CStat sample.key) None; Ev (CPrepare "ctr2" sample.key) None ]
   /\ s' !! "ctr2"
      = Some {| InfoKind := KindActive; Parent := sample.key |}
   /\ r = None)
  /\ (let '(tr, s', _, _, r) :=
        observe (WithRemappedSnapshotView "ctr2" sample.busybox 1000 1000)
          (sample.client memstore.snapshotter) (sample.ctr "ctr2")
          sample.base_only sample.disk in
      last tr = Some (Ev (CView "ctr2" sample.key) None)
      /\ s' !! "ctr2"
         = Some {| InfoKind := KindView; Parent := sample.key |}
      /\ r = None).
Proof. vm_compute. repeat split. Qed.

(** C2 (the code when the walk fails): an entry of the transient snapshot has
    an owner that the mapping does not cover; the run prepares the transient
    snapshot, the walk fails, the run calls Remove on the cache key (which
    does not exist) and returns the error of the walk; nothing is committed
    under the cache key, and the transient snapshot is still in the store,
    active. *)
Theorem failed_walk_leaves_transient :
  let '(tr, s', _, _, r) :=
    observe (WithRemappedSnapshot "ctr1" sample.busybox 1000 1000)
      (sample.client memstore.snapshotter) (sample.ctr "ctr1")
      sample.base_only sample.disk_unmapped in
  tr = [ Ev (CStat sample.key) (Some (Err NotFound sample.key));
         Ev (CPrepare (sample.key +:+ "-remap") "sha256:abc") None;
         Ev (CRemove sample.key) (Some (Err NotFound sample.key)) ]
  /\ r = Some (Err NoMapping "no mapping")
  /\ s' !! sample.key = None
  /\ s' !! (sample.key +:+ "-remap")
     = Some {| InfoKind := KindActive; Parent := "sha256:abc" |}
  /\ snd (memstore.stat (sample.key +:+ "-remap") s')
     = inl {| InfoKind := KindActive; Parent := "sha256:abc" |}.
Proof. vm_compute. repeat split. Qed.

(** C3, as stated, fails: another client commits the cache key between this
    run's Prepare of the transient snapshot and its Commit.  The Commit fails,
    an existence check on the store the run leaves finds the artifact under
    the key, and yet the run returns the error of the Commit. *)
Lemma commit_race_is_not_recovered :
  let '(tr, s', _, c', r) :=
    observe (WithRemappedSnapshot "ctr1" sample.busybox 1000 1000)
      (sample.client memstore.shared) (sample.ctr "ctr1")
      ([memstore.Quiet; memstore.Quiet;
        memstore.OtherCommits sample.key "sha256:abc"], sample.base_only)
      sample.disk in
  last tr
    = Some (Ev (CCommit sample.key (sample.key +:+ "-remap"))
              (Some (Err AlreadyExists sample.key)))
  /\ snd (Stat memstore.shared sample.key s')
     = inl {| InfoKind := KindCommitted; Parent := "sha256:abc" |}
  /\ r = Some (Err AlreadyExists sample.key)
  /\ containers.SnapshotKey c' = "".
Proof. vm_compute. repeat split. Qed.



(** ** The theorems at the sample inputs *)

(** The options at the root pair (1000, 1000). *)
Lemma WithRemappedSnapshot_singleton_witness :
  is_uint32 1000
  /\ WithRemappedSnapshot (S := gmap string Info) "ctr1" sample.busybox 1000 1000
     = WithMultiRemappedSnapshot "ctr1" sample.busybox sample.root1000
  /\ WithRemappedSnapshotView (S := gmap string Info) "ctr1" sample.busybox
       1000 1000
     = WithMultiRemappedSnapshotView "ctr1" sample.busybox sample.root1000.
Proof.
  assert (Hu : is_uint32 1000) by (unfold is_uint32; lia).
  split; [exact Hu|].
  pose proof (WithRemappedSnapshot_singleton (S := gmap string Info)
                "ctr1" sample.busybox 1000 1000 sample.root1000 Hu Hu)
    as (H1 & H2 & _).
  split; [exact H1|exact H2].
Defined.

(** [/etc/hosts] has an owner without a mapping: the four entries before it
    are reowned, the link after it is not, and the error comes back. *)
Lemma walk_aborts_on_first_error_witness :
  exists fs1,
    runVisits (chown "/tmp/containerd-mount1" sample.root1000)
      (take 4 (visits "/tmp/containerd-mount1" sample.rootfs))
      sample.disk_unmapped = (fs1, None)
    /\ owners fs1 !! 6%N = Some (0, 0)
    /\ remapRootFS
         [ {| Type_ := "bind"; Source := "sha256:abc-1000-1000-remap";
              Options := ["rw"] |} ]
         sample.root1000 sample.disk_unmapped
       = (fs1, Some (Err NoMapping "no mapping")).
Proof.
  eexists. split; [vm_compute; reflexivity|]. split; [reflexivity|].
  refine (proj2 (walk_aborts_on_first_error
                   "/tmp/containerd-mount1" sample.rootfs sample.root1000
                   sample.disk_unmapped _
                   (take 4 (visits "/tmp/containerd-mount1" sample.rootfs))
                   (drop 5 (visits "/tmp/containerd-mount1" sample.rootfs))
                   (Visit "/tmp/containerd-mount1/etc/hosts" (File 5) None)
                   _ _ _ _) _ _).
  - reflexivity.
  - vm_compute; reflexivity.
  - vm_compute; reflexivity.
  - reflexivity.
Defined.


(** The lost race, through the theorem. *)
Lemma commit_failure_is_fatal_witness :
  exists tr s' f' c',
    observe (WithMultiRemappedSnapshot "ctr1" sample.busybox sample.root1000)
      (sample.client memstore.shared) (sample.ctr "ctr1")
      ([memstore.Quiet; memstore.Quiet;
        memstore.OtherCommits sample.key "sha256:abc"], sample.base_only)
      sample.disk
    = (tr, s', f', c', Some (Err AlreadyExists sample.key))
    /\ last tr
       = Some (Ev (CCommit sample.key (sample.key +:+ "-remap"))
                 (Some (Err AlreadyExists sample.key))).
Proof.
  eexists _, _, _, _.
  assert (Hrun :
    observe (withRemappedSnapshotBase "ctr1" sample.busybox sample.root1000 false)
      (sample.client memstore.shared) (sample.ctr "ctr1")
      ([memstore.Quiet; memstore.Quiet;
        memstore.OtherCommits sample.key "sha256:abc"], sample.base_only)
      sample.disk
    = (_, _, _, _, Some (Err AlreadyExists sample.key)))
    by (vm_compute; reflexivity).
  split; [exact Hrun|].
  refine (proj2 (commit_failure_is_fatal _ _ _ _ _ _ _ _ _ _ _ _ _
                   sample.key (sample.key +:+ "-remap")
                   (Err AlreadyExists sample.key) Hrun _)).
  vm_compute. repeat first [apply list_elem_of_here | apply list_elem_of_further].
Defined.



(** ** Decimal numerals in labels and keys *)

Lemma split_at_app (sep : Ascii.ascii) (u v : string) :
  free_of sep u = true ->
  split_at sep (u +:+ String sep v) = (u, Some v).
Proof.
  induction u as [|a u IH]; simpl; intros Hfree.
  - now rewrite Ascii.eqb_refl.
  - apply andb_prop in Hfree as [Ha Hu].
    apply negb_true_iff in Ha. rewrite Ha. now rewrite (IH Hu).
Qed.

Lemma free_of_uint (sep : Ascii.ascii) (u : Decimal.uint) :
  (sep = ":" \/ sep = "-")%char ->
  free_of sep (NilEmpty.string_of_uint u) = true.
Proof.
  intros [-> | ->]; induction u; simpl; auto.
Qed.

(** What [%d] prints: a non-empty run of digits, after a minus sign for a
    negative number. *)
Lemma fmt_d_shape (z : Z) :
  exists a body,
    (a <> "-")%char
    /\ free_of "-" (String a body) = true
    /\ free_of ":" (String a body) = true
    /\ (fmt_d z = String a body \/ fmt_d z = String "-" (String a body)).
Proof.
  assert (Huint : forall u, u <> Decimal.Nil ->
            exists a body, NilZero.string_of_uint u = String a body
              /\ (a <> "-")%char
              /\ free_of "-" (String a body) = true
              /\ free_of ":" (String a body) = true).
  { intros u Hu.
    assert (Hne : NilZero.string_of_uint u = NilEmpty.string_of_uint u)
      by now destruct u.
    pose proof (free_of_uint "-" u (or_intror eq_refl)) as Hd.
    pose proof (free_of_uint ":" u (or_introl eq_refl)) as Hc.
    rewrite Hne.
    destruct (NilEmpty.string_of_uint u) as [|a body] eqn:Hs;
      [now destruct u|].
    exists a, body. repeat split; auto.
    intros ->. simpl in Hd. discriminate. }
  unfold fmt_d. destruct z as [|p|p]; simpl.
  - exists "0"%char, EmptyString. repeat split; auto; discriminate.
  - destruct (Huint (Pos.to_uint p) (DecimalPos.Unsigned.to_uint_nonnil p))
      as (a & body & -> & Ha & Hd & Hc).
    exists a, body. auto.
  - destruct (Huint (Pos.to_uint p) (DecimalPos.Unsigned.to_uint_nonnil p))
      as (a & body & -> & Ha & Hd & Hc).
    exists a, body. auto.
Qed.

Lemma fmt_d_free_of_colon (z : Z) : free_of ":" (fmt_d z) = true.
Proof.
  destruct (fmt_d_shape z) as (a & body & _ & _ & Hc & [-> | ->]); auto.
Qed.

Lemma split_number_fmt_d (z : Z) (rest : string) :
  split_number (fmt_d z +:+ String "-" rest) = (fmt_d z, Some rest).
Proof.
  destruct (fmt_d_shape z) as (a & body & Ha & Hd & _ & [-> | ->]).
  - transitivity (split_at "-" (String a body +:+ String "-" rest)).
    + simpl.
      destruct a as [[] [] [] [] [] [] [] []]; try reflexivity; congruence.
    + now apply split_at_app.
  - change (String "-" (String a body) +:+ String "-" rest)
      with (String "-" (String a body +:+ String "-" rest)).
    unfold split_number. now rewrite (split_at_app "-" _ rest Hd).
Qed.

Lemma parse_label_Sprintf (a b c : Z) :
  parse_label (Sprintf_d_d_d a b c) = Some (a, b, c).
Proof.
  unfold parse_label, Sprintf_d_d_d.
  change (fmt_d a +:+ ":" +:+ fmt_d b +:+ ":" +:+ fmt_d c)
    with (fmt_d a +:+ String ":" (fmt_d b +:+ String ":" (fmt_d c))).
  rewrite (split_at_app ":" _ _ (fmt_d_free_of_colon a)).
  rewrite (split_at_app ":" _ _ (fmt_d_free_of_colon b)).
  now rewrite !parse_fmt_d.
Qed.

Lemma parse_key_usernsID `{Methods} (parent : string) (idmap : IdentityMapping) :
  free_of "-" parent = true ->
  parse_key (usernsID parent idmap) = Some (parent, RootPair idmap).
Proof.
  intros Hp. unfold parse_key, usernsID, Sprintf_s_d_d.
  change (parent +:+ "-" +:+ fmt_d (UID (RootPair idmap)) +:+ "-"
            +:+ fmt_d (GID (RootPair idmap)))
    with (parent +:+ String "-"
            (fmt_d (UID (RootPair idmap))
               +:+ String "-" (fmt_d (GID (RootPair idmap))))).
  rewrite (split_at_app "-" _ _ Hp), split_number_fmt_d, !parse_fmt_d.
  now destruct (RootPair idmap).
Qed.

(** X1: the labels of [WithRemapperLabels] are exactly the UID label and the
    GID label, and each value reads back as the triple it was made from:
    container id, host id and the shared length. *)
Theorem remapper_labels_round_trip `{Labelling}
    (ctrUID hostUID ctrGID hostGID length : Z) :
  LabelSnapshotUIDMapping <> LabelSnapshotGIDMapping ->
  WithRemapperLabels ctrUID hostUID ctrGID hostGID length
    = WithLabels (remapperLabels ctrUID hostUID ctrGID hostGID length)
  /\ dom (remapperLabels ctrUID hostUID ctrGID hostGID length)
     = {[ LabelSnapshotUIDMapping; LabelSnapshotGIDMapping ]}
  /\ (exists u,
        remapperLabels ctrUID hostUID ctrGID hostGID length
          !! LabelSnapshotUIDMapping = Some u
        /\ parse_label u = Some (ctrUID, hostUID, length))
  /\ (exists g,
        remapperLabels ctrUID hostUID ctrGID hostGID length
          !! LabelSnapshotGIDMapping = Some g
        /\ parse_label g = Some (ctrGID, hostGID, length)).
Proof.
  intros Hkeys. unfold remapperLabels. repeat split.
  - rewrite !dom_insert_L, dom_empty_L, (right_id_L ∅ (∪)).
    apply (comm_L (∪)).
  - eexists. split.
    + rewrite lookup_insert_ne by congruence. apply lookup_insert_eq.
    + apply parse_label_Sprintf.
  - eexists. split.
    + apply lookup_insert_eq.
    + apply parse_label_Sprintf.
Qed.

(** The labels of the root pair (1000, 1000), length 1. *)
Lemma remapper_labels_round_trip_witness :
  exists u,
    @remapperLabels sample_labels.labelling 0 1000 0 1000 1
      !! "containerd.io/snapshot/uidmapping" = Some u
    /\ parse_label u = Some (0, 1000, 1).
Proof.
  refine (proj1 (proj2 (proj2
    (@remapper_labels_round_trip sample_labels.labelling 0 1000 0 1000 1 _)))).
  discriminate.
Defined.

(** X2: the labels of [WithMultiRemapperLabels] are all or nothing: when
    both lists marshal, exactly the UID label and the GID label, holding the
    two marshalled lists; when either does not, no label at all. *)
Theorem multi_remapper_labels_all_or_nothing `{Labelling}
    (idmap : IdentityMapping) :
  LabelSnapshotUIDMapping <> LabelSnapshotGIDMapping ->
  WithMultiRemapperLabels idmap = WithLabels (multiRemapperLabels idmap)
  /\ ((exists uidMap gidMap,
         Marshal (UIDMaps idmap) = inl uidMap
         /\ Marshal (GIDMaps idmap) = inl gidMap
         /\ dom (multiRemapperLabels idmap)
            = {[ LabelSnapshotUIDMapping; LabelSnapshotGIDMapping ]}
         /\ multiRemapperLabels idmap !! LabelSnapshotUIDMapping = Some uidMap
         /\ multiRemapperLabels idmap !! LabelSnapshotGIDMapping = Some gidMap)
      \/ ((exists e, Marshal (UIDMaps idmap) = inr e
                     \/ Marshal (GIDMaps idmap) = inr e)
          /\ multiRemapperLabels idmap = ∅)).
Proof.
  intros Hkeys. split; [reflexivity|]. unfold multiRemapperLabels.
  destruct (Marshal (UIDMaps idmap)) as [uidMap|e].
  - destruct (Marshal (GIDMaps idmap)) as [gidMap|e].
    + left. exists uidMap, gidMap. repeat split.
      * rewrite !dom_insert_L, dom_empty_L, (right_id_L ∅ (∪)).
        apply (comm_L (∪)).
      * rewrite lookup_insert_ne by congruence. apply lookup_insert_eq.
      * apply lookup_insert_eq.
    + right. split; [exists e; now right|reflexivity].
  - right. split; [exists e; now left|reflexivity].
Qed.

(** Both lists of the sample mapping marshal, so both labels are there. *)
Lemma multi_remapper_labels_all_or_nothing_witness :
  dom (@multiRemapperLabels sample_labels.labelling sample.root1000_more)
  = {[ "containerd.io/snapshot/uidmapping";
       "containerd.io/snapshot/gidmapping" ]}.
Proof.
  destruct (@multi_remapper_labels_all_or_nothing sample_labels.labelling
              sample.root1000_more)
    as (_ & [(u & g & _ & _ & Hdom & _) | ((e & [He | He]) & _)]).
  - discriminate.
  - exact Hdom.
  - discriminate.
  - discriminate.
Defined.

(** X3: for parent chains without a dash (a digest has none), the derived
    key reads back as the parent chain and the root pair, so two requests
    share a key only when they have the same parent chain and the same root
    pair. *)
Theorem usernsID_injective `{Methods} (p1 p2 : string)
    (m1 m2 : IdentityMapping) :
  free_of "-" p1 = true ->
  free_of "-" p2 = true ->
  usernsID p1 m1 = usernsID p2 m2 ->
  p1 = p2 /\ RootPair m1 = RootPair m2.
Proof.
  intros H1 H2 Hkey.
  pose proof (parse_key_usernsID p1 m1 H1) as Hparse1.
  pose proof (parse_key_usernsID p2 m2 H2) as Hparse2.
  rewrite Hkey, Hparse2 in Hparse1. now injection Hparse1 as -> ->.
Qed.

(** The key of the sample request is shared by the two sample mappings,
    which have one root pair. *)
Lemma usernsID_injective_witness :
  @RootPair spec_methods sample.root1000
  = @RootPair spec_methods sample.root1000_more.
Proof.
  exact (proj2 (@usernsID_injective spec_methods "sha256:abc" "sha256:abc"
                  sample.root1000 sample.root1000_more
                  eq_refl eq_refl eq_refl)).
Defined.

(** ** More on the orchestrator *)

Lemma append_neq (s t : string) (a : Ascii.ascii) : s <> s +:+ String a t.
Proof.
  induction s as [|b s IH]; simpl.
  - discriminate.
  - intros [= Heq]. now apply IH.
Qed.

(** X4: a run that fails before it has a snapshotter (the image does not
    resolve, the snapshotter name does not resolve, or no snapshotter is
    loaded under the name) makes no call to the store and leaves store and
    file system as they were; if the image does not resolve the container is
    untouched too.  Otherwise the container's Snapshotter field is the
    resolved name and the first call is the Stat of the cache key. *)
Theorem store_is_reached_through_Stat {S : Type} `{Methods} `{Mounter}
    `{ChainIDer} (id : string) (i : Image) (idmap : IdentityMapping)
    (readonly : bool) (client : Client S) (c : containers.Container) (s : S)
    (f : FS) (tr : list event) (s' : S) (f' : FS) (c' : containers.Container)
    (r : option error) :
  observe (withRemappedSnapshotBase id i idmap readonly) client c s f
    = (tr, s', f', c', r) ->
  match RootFS i with
  | inr e => tr = [] /\ s' = s /\ f' = f /\ c' = c /\ r = Some e
  | inl diffIDs =>
      let resolved := resolveSnapshotterName client (containers.Snapshotter c) in
      containers.Snapshotter c' = fst resolved
      /\ match snd resolved with
         | Some e => tr = [] /\ s' = s /\ f' = f /\ r = Some e
         | None =>
             match getSnapshotter client (fst resolved) with
             | inr e => tr = [] /\ s' = s /\ f' = f /\ r = Some e
             | inl _ =>
                 exists pe,
                   tr !! 0%nat
                   = Some (Ev (CStat (usernsID (ChainID diffIDs) idmap)) pe)
             end
         end
  end.
Proof.
  intros Hrun. run_paths Hrun;
    repeat match goal with
           | Heq : ?x = _ |- context [?x] => rewrite Heq; simpl
           end;
    repeat split; eexists; reflexivity.
Qed.


(** X6: when the cache key is found but the Prepare of the target on it
    fails, a "not found" sends the run on to the Prepare of the transient
    snapshot, and any other error ends it: that error is the result, no
    third call is made and the file system is as it was. *)
Theorem hit_prepare_failure {S : Type} `{Methods} `{Mounter} `{ChainIDer}
    (id : string) (i : Image) (idmap : IdentityMapping) (readonly : bool)
    (client : Client S) (c : containers.Container) (s : S) (f : FS)
    (tr : list event) (s' : S) (f' : FS) (c' : containers.Container)
    (r : option error) (k : string) (e : error) :
  observe (withRemappedSnapshotBase id i idmap readonly) client c s f
    = (tr, s', f', c', r) ->
  tr !! 0%nat = Some (Ev (CStat k) None) ->
  tr !! 1%nat = Some (Ev (CPrepare id k) (Some e)) ->
  if IsNotFound e
  then exists diffIDs pe,
         RootFS i = inl diffIDs
         /\ tr !! 2%nat
            = Some (Ev (CPrepare (k +:+ "-remap") (ChainID diffIDs)) pe)
  else length tr = 2%nat /\ r = Some e /\ f' = f.
Proof.
  intros Hrun Hfst Hsnd. run_paths Hrun; simpl in Hfst, Hsnd; simplify_eq.
  all: match goal with
       | Hnf : negb (IsNotFound ?e) = _ |- _ =>
           destruct (IsNotFound e); simpl in Hnf; try discriminate
       end.
  all: first [ now repeat split | eexists _, _; split; reflexivity ].
Qed.

(** X7: once the Commit has succeeded, the read-only flag decides the last
    call: View of the target on the cache key when it is set, Prepare when
    it is not.  The outcome of that call is the outcome of the run, and
    nothing is removed, also when it fails. *)
Theorem commit_then_final {S : Type} `{Methods} `{Mounter} `{ChainIDer}
    (id : string) (i : Image) (idmap : IdentityMapping) (readonly : bool)
    (client : Client S) (c : containers.Container) (s : S) (f : FS)
    (tr : list event) (s' : S) (f' : FS) (c' : containers.Container)
    (r : option error) (name k : string) :
  observe (withRemappedSnapshotBase id i idmap readonly) client c s f
    = (tr, s', f', c', r) ->
  Ev (CCommit name k) None ∈ tr ->
  k = name +:+ "-remap"
  /\ last tr
     = Some (Ev (if readonly then CView id name else CPrepare id name) r)
  /\ (forall k' re, Ev (CRemove k') re ∉ tr).
Proof.
  intros Hrun Hin. run_paths Hrun;
    repeat (apply elem_of_cons in Hin as [Hin|Hin]; simplify_eq);
    try (now apply elem_of_nil in Hin).
  all: split; [reflexivity|split; [reflexivity|]].
  all: intros k' re Hrm;
    repeat (apply elem_of_cons in Hrm as [Hrm|Hrm]; simplify_eq);
    now apply elem_of_nil in Hrm.
Qed.


(** X9: a run makes at most five calls to the store, and every one of them
    is on the cache key, on the transient snapshot beside it (prepared on the
    parent chain), or on the target (prepared or viewed on the cache key): no
    other key of the store is read or written. *)
Theorem calls_stay_on_three_keys {S : Type} `{Methods} `{Mounter} `{ChainIDer}
    (id : string) (i : Image) (idmap : IdentityMapping) (readonly : bool)
    (client : Client S) (c : containers.Container) (s : S) (f : FS)
    (tr : list event) (s' : S) (f' : FS) (c' : containers.Container)
    (r : option error) :
  observe (withRemappedSnapshotBase id i idmap readonly) client c s f
    = (tr, s', f', c', r) ->
  (length tr <= 5)%nat
  /\ match RootFS i with
     | inr _ => tr = []
     | inl diffIDs =>
         Forall (fun ev =>
                   allowed_call id (usernsID (ChainID diffIDs) idmap)
                     (ChainID diffIDs) (ev_call ev)) tr
     end.
Proof.
  intros Hrun. run_paths Hrun; (split; [simpl; lia|]);
    try reflexivity;
    repeat match goal with
           | Heq : RootFS _ = _ |- _ => rewrite Heq
           end;
    repeat (apply Forall_cons; split; [unfold allowed_call; simpl; tauto|]);
    apply Forall_nil; exact I.
Qed.

(** ** A walk that succeeds *)

Lemma visitOne_success `{Methods} (root : string) (idmap : IdentityMapping)
    (v : visit) (fs fs' : FS) :
  visitOne (chown root idmap) v fs = (fs', None) ->
  v_rd v = None /\ reowned idmap fs fs' (ino_of (v_ent v)).
Proof.
  unfold visitOne, chown, Lstat, reowned.
  destruct (owners fs !! ino_of (v_ent v)) as [[u g]|] eqn:Hown;
    [|discriminate].
  destruct (v_rd v) as [e|]; [discriminate|]. simpl.
  destruct (ToHost idmap _) as [h [e|]] eqn:Hh; [discriminate|].
  unfold Lchown, set_owner.
  destruct (decide (ino_of (v_ent v) ∈ immutable fs)); [discriminate|].
  rewrite Hown. intros [= <-]. split; [reflexivity|].
  exists u, g, h. simpl. now rewrite lookup_insert_eq.
Qed.

Lemma visitOne_frame `{Methods} (root : string) (idmap : IdentityMapping)
    (v : visit) (fs fs' : FS) (e : option error) (j : N) :
  visitOne (chown root idmap) v fs = (fs', e) ->
  j <> ino_of (v_ent v) ->
  owners fs' !! j = owners fs !! j.
Proof.
  unfold visitOne. intros Hone Hj.
  destruct (Lstat (v_path v) (v_ent v) fs); eapply chown_frame; eauto.
Qed.

Lemma runVisits_success_rd `{Methods} (root : string) (idmap : IdentityMapping)
    (vs : list visit) :
  forall fs fs',
    runVisits (chown root idmap) vs fs = (fs', None) ->
    forall v, v ∈ vs -> v_rd v = None.
Proof.
  induction vs as [|w vs IH]; intros fs fs' Hrun v Hv.
  - now apply elem_of_nil in Hv.
  - simpl in Hrun.
    destruct (visitOne (chown root idmap) w fs) as [fs1 [e|]] eqn:Hone;
      [discriminate|].
    apply elem_of_cons in Hv as [->|Hv].
    + now apply (visitOne_success root idmap w fs fs1).
    + eapply IH; eauto.
Qed.

Lemma runVisits_success `{Methods} (root : string) (idmap : IdentityMapping)
    (vs : list visit) :
  forall fs fs',
    NoDup (map (fun v => ino_of (v_ent v)) vs) ->
    runVisits (chown root idmap) vs fs = (fs', None) ->
    forall v, v ∈ vs -> reowned idmap fs fs' (ino_of (v_ent v)).
Proof.
  induction vs as [|w vs IH]; intros fs fs' Hnd Hrun v Hv.
  - now apply elem_of_nil in Hv.
  - simpl in Hrun, Hnd. apply NoDup_cons in Hnd as [Hw Hnd].
    destruct (visitOne (chown root idmap) w fs) as [fs1 [e|]] eqn:Hone;
      [discriminate|].
    apply elem_of_cons in Hv as [->|Hv].
    + destruct (visitOne_success root idmap w fs fs1 Hone)
        as (_ & u & g & h & Hu & Hh & Hu').
      exists u, g, h. repeat split; auto.
      rewrite <- Hu'. eapply runVisits_frame; eauto.
      intros x Hx Heq. apply Hw. rewrite <- Heq.
      apply list_elem_of_fmap. now exists x.
    + destruct (IH fs1 fs' Hnd Hrun v Hv) as (u & g & h & Hu & Hh & Hu').
      exists u, g, h. repeat split; auto.
      rewrite <- Hu. symmetry. eapply visitOne_frame; eauto.
      intros Heq. apply Hw. rewrite <- Heq.
      apply list_elem_of_fmap. now exists v.
Qed.

Lemma visits_cover :
  (forall t path,
      (forall v, v ∈ visits path t -> v_rd v = None) ->
      map (fun v => ino_of (v_ent v)) (visits path t) = inodes t)
  /\ (forall ents path,
        (forall v, v ∈ visitsEntries path ents -> v_rd v = None) ->
        map (fun v => ino_of (v_ent v)) (visitsEntries path ents)
        = inodesEntries ents).
Proof.
  apply tree_forest_mutind.
  - reflexivity.
  - reflexivity.
  - intros i rd ents IH path Hrd. simpl in *.
    assert (Hnone : rd = None)
      by exact (Hrd (Visit path (Dir i rd ents) rd) (list_elem_of_here _ _)).
    subst rd. f_equal. apply IH. intros v Hv. apply Hrd. now right.
  - reflexivity.
  - intros name t IHt rest IHrest path Hrd. simpl in *.
    rewrite map_app. f_equal.
    + apply IHt. intros v Hv. apply Hrd. apply elem_of_app. now left.
    + apply IHrest. intros v Hv. apply Hrd. apply elem_of_app. now right.
Qed.

(** X10: when the walk of a tree without hard links (no inode under two
    names) succeeds, every entry of the tree, directories, files and symbolic
    links alike, ends with the translation of the owner it had before the
    walk. *)
Theorem Walk_reowns_every_entry `{Methods} (root : string) (t : tree)
    (idmap : IdentityMapping) (fs fs' : FS) :
  NoDup (inodes t) ->
  Walk root t (chown root idmap) fs = (fs', None) ->
  forall i, i ∈ inodes t -> reowned idmap fs fs' i.
Proof.
  intros Hnd HW i Hi.
  rewrite (Walk_visits _ (chown_propagates root idmap)) in HW.
  pose proof (proj1 visits_cover t root
                (runVisits_success_rd root idmap _ fs fs' HW)) as Hcover.
  rewrite <- Hcover in Hnd, Hi.
  apply list_elem_of_fmap in Hi as (v & -> & Hv).
  eapply runVisits_success; eauto.
Qed.

Lemma runVisits_app_success (fn : WalkFunc) (vs ws : list visit) (fs fs' : FS) :
  runVisits fn (vs ++ ws) fs = (fs', None) ->
  exists fs1,
    runVisits fn vs fs = (fs1, None) /\ runVisits fn ws fs1 = (fs', None).
Proof.
  rewrite runVisits_app.
  destruct (runVisits fn vs fs) as [fs1 [e|]]; [discriminate|].
  intros Hws. now exists fs1.
Qed.

(** X11: the walk keeps no record of the inodes it has seen.  When it
    succeeds on a tree in which an inode has two names (a hard link), that
    inode has been translated twice: its final owner is the translation of
    the translation of its first owner. *)
Theorem hard_link_is_translated_twice `{Methods} (root : string) (t : tree)
    (idmap : IdentityMapping) (fs fs' : FS) (i : N) (l1 l2 l3 : list N) :
  inodes t = l1 ++ i :: l2 ++ i :: l3 ->
  i ∉ l1 -> i ∉ l2 -> i ∉ l3 ->
  Walk root t (chown root idmap) fs = (fs', None) ->
  exists mid, reowned idmap fs mid i /\ reowned idmap mid fs' i.
Proof.
  intros Hino H1 H2 H3 HW.
  rewrite (Walk_visits _ (chown_propagates root idmap)) in HW.
  pose proof (proj1 visits_cover t root
                (runVisits_success_rd root idmap _ fs fs' HW)) as Hcover.
  rewrite Hino in Hcover.
  apply fmap_app_inv in Hcover as (vs1 & rest1 & Hl1 & Hrest1 & Hvs).
  symmetry in Hrest1.
  apply fmap_cons_inv in Hrest1 as (v1 & rest2 & Hv1 & Hrest2 & ->).
  symmetry in Hrest2.
  apply fmap_app_inv in Hrest2 as (vs2 & rest3 & Hl2 & Hrest3 & ->).
  symmetry in Hrest3.
  apply fmap_cons_inv in Hrest3 as (v2 & vs3 & Hv2 & Hl3 & ->).
  rewrite Hvs in HW.
  apply runVisits_app_success in HW as (fsa & Ha & HW). simpl in HW.
  destruct (visitOne (chown root idmap) v1 fsa) as [fsb [e|]] eqn:Hone1;
    [discriminate|].
  apply runVisits_app_success in HW as (fsc & Hc & HW). simpl in HW.
  destruct (visitOne (chown root idmap) v2 fsc) as [fsd [e|]] eqn:Hone2;
    [discriminate|].
  assert (Hfa : owners fsa !! i = owners fs !! i).
  { eapply runVisits_frame; eauto. intros x Hx Heq. apply H1.
    rewrite Hl1. apply list_elem_of_fmap. now exists x. }
  assert (Hfc : owners fsc !! i = owners fsb !! i).
  { eapply runVisits_frame; eauto. intros x Hx Heq. apply H2.
    rewrite Hl2. apply list_elem_of_fmap. now exists x. }
  assert (Hfd : owners fs' !! i = owners fsd !! i).
  { eapply runVisits_frame; eauto. intros x Hx Heq. apply H3.
    rewrite Hl3. apply list_elem_of_fmap. now exists x. }
  destruct (visitOne_success root idmap v1 fsa fsb Hone1)
    as (_ & u & g & h & Hu & Hh & Hu').
  destruct (visitOne_success root idmap v2 fsc fsd Hone2)
    as (_ & u2 & g2 & h2 & Hu2 & Hh2 & Hu2').
  rewrite <- Hv1 in Hu, Hu'. rewrite <- Hv2 in Hu2, Hu2'.
  exists fsb. split.
  - exists u, g, h. rewrite <- Hfa. auto.
  - exists u2, g2, h2. rewrite <- Hfc, Hfd. auto.
Qed.

(** X12: View is called only in read-only mode, only as the last call of a
    run, for the target on the cache key, and only right after a successful
    Commit; the read-write options never create a view. *)
Theorem view_only_after_commit {S : Type} `{Methods} `{Mounter} `{ChainIDer}
    (id : string) (i : Image) (idmap : IdentityMapping) (readonly : bool)
    (client : Client S) (c : containers.Container) (s : S) (f : FS)
    (tr : list event) (s' : S) (f' : FS) (c' : containers.Container)
    (r : option error) (k p : string) (e : option error) :
  observe (withRemappedSnapshotBase id i idmap readonly) client c s f
    = (tr, s', f', c', r) ->
  Ev (CView k p) e ∈ tr ->
  readonly = true
  /\ k = id
  /\ exists pre,
       tr = pre ++ [ Ev (CCommit p (p +:+ "-remap")) None; Ev (CView id p) e ].
Proof.
  intros Hrun Hin. run_paths Hrun;
    repeat (apply elem_of_cons in Hin as [Hin|Hin]; simplify_eq);
    try (now apply elem_of_nil in Hin).
  all: split; [reflexivity|split; [reflexivity|]].
  all: match goal with
       | |- exists pre, ?tr = _ =>
           exists (take (length tr - 2) tr); reflexivity
       end.
Qed.

Lemma remapRootFS_frame `{Methods} `{Mounter} (mounts : list Mount)
    (idmap : IdentityMapping) (fs fs' : FS) (e : option error) (j : N) :
  remapRootFS mounts idmap fs = (fs', e) ->
  (forall root t, tempMount mounts = inl (root, t) -> j ∉ inodes t) ->
  owners fs' !! j = owners fs !! j.
Proof.
  unfold remapRootFS, WithTempMount. intros Hre Hout.
  destruct (tempMount mounts) as [[root t]|e1] eqn:Hm.
  - eapply Walk_frame; eauto.
  - now injection Hre as <- _.
Qed.


(** ** The further theorems at the sample inputs *)

(** A run that reaches the store starts with the Stat of the key. *)
Lemma store_is_reached_through_Stat_witness :
  exists tr s' f' c' r,
    observe (WithMultiRemappedSnapshot "ctr1" sample.busybox sample.root1000)
      (sample.client memstore.snapshotter) (sample.ctr "ctr1")
      sample.base_only sample.disk
    = (tr, s', f', c', r)
    /\ containers.Snapshotter c' = "overlayfs"
    /\ exists pe, tr !! 0%nat = Some (Ev (CStat sample.key) pe).
Proof.
  eexists _, _, _, _, _.
  assert (Hrun :
    observe (withRemappedSnapshotBase "ctr1" sample.busybox sample.root1000 false)
      (sample.client memstore.snapshotter) (sample.ctr "ctr1")
      sample.base_only sample.disk
    = (_, _, _, _, _))
    by (vm_compute; reflexivity).
  split; [exact Hrun|].
  exact (store_is_reached_through_Stat _ _ _ _ _ _ _ _ _ _ _ _ _ Hrun).
Defined.


(** The cache key is there, but so is a snapshot under the target's name:
    the Prepare fails with "already exists" and the run stops. *)
Lemma hit_prepare_failure_witness :
  exists tr s' f' c' r,
    observe (WithMultiRemappedSnapshot "ctr1" sample.busybox sample.root1000)
      (sample.client memstore.snapshotter) (sample.ctr "ctr1")
      sample.remapped_taken sample.disk
    = (tr, s', f', c', r)
    /\ length tr = 2%nat
    /\ r = Some (Err AlreadyExists "ctr1")
    /\ f' = sample.disk.
Proof.
  eexists _, _, _, _, _.
  assert (Hrun :
    observe (withRemappedSnapshotBase "ctr1" sample.busybox sample.root1000 false)
      (sample.client memstore.snapshotter) (sample.ctr "ctr1")
      sample.remapped_taken sample.disk
    = (_, _, _, _, _))
    by (vm_compute; reflexivity).
  split; [exact Hrun|].
  exact (hit_prepare_failure _ _ _ _ _ _ _ _ _ _ _ _ _ sample.key
           (Err AlreadyExists "ctr1") Hrun eq_refl eq_refl).
Defined.

(** After the Commit of a read-write run comes the Prepare of the target. *)
Lemma commit_then_final_witness :
  exists tr s' f' c' r,
    observe (WithMultiRemappedSnapshot "ctr1" sample.busybox sample.root1000)
      (sample.client memstore.snapshotter) (sample.ctr "ctr1")
      sample.base_only sample.disk
    = (tr, s', f', c', r)
    /\ last tr = Some (Ev (CPrepare "ctr1" sample.key) r).
Proof.
  eexists _, _, _, _, _.
  assert (Hrun :
    observe (withRemappedSnapshotBase "ctr1" sample.busybox sample.root1000 false)
      (sample.client memstore.snapshotter) (sample.ctr "ctr1")
      sample.base_only sample.disk
    = (_, _, _, _, _))
    by (vm_compute; reflexivity).
  split; [exact Hrun|].
  refine (proj1 (proj2 (commit_then_final _ _ _ _ _ _ _ _ _ _ _ _ _
                          sample.key (sample.key +:+ "-remap") Hrun _))).
  vm_compute.
  repeat first [apply list_elem_of_here | apply list_elem_of_further].
Defined.


(** The four calls of a successful run on a miss. *)
Lemma calls_stay_on_three_keys_witness :
  exists tr s' f' c' r,
    observe (WithMultiRemappedSnapshot "ctr1" sample.busybox sample.root1000)
      (sample.client memstore.snapshotter) (sample.ctr "ctr1")
      sample.base_only sample.disk
    = (tr, s', f', c', r)
    /\ (length tr <= 5)%nat
    /\ Forall (fun ev =>
                 allowed_call "ctr1" sample.key "sha256:abc" (ev_call ev)) tr.
Proof.
  eexists _, _, _, _, _.
  assert (Hrun :
    observe (withRemappedSnapshotBase "ctr1" sample.busybox sample.root1000 false)
      (sample.client memstore.snapshotter) (sample.ctr "ctr1")
      sample.base_only sample.disk
    = (_, _, _, _, _))
    by (vm_compute; reflexivity).
  split; [exact Hrun|].
  exact (calls_stay_on_three_keys _ _ _ _ _ _ _ _ _ _ _ _ _ Hrun).
Defined.

(** The sample tree has no hard link; the walk gives the link [/etc/passwd]
    the translation of its owner. *)
Lemma Walk_reowns_every_entry_witness :
  NoDup (inodes sample.rootfs)
  /\ reowned sample.root1000 sample.disk
       (fst (Walk "/" sample.rootfs (chown "/" sample.root1000) sample.disk))
       6%N.
Proof.
  assert (Hnd : NoDup (inodes sample.rootfs)).
  { vm_compute. repeat (apply NoDup_cons; split; [intros Hx;
      repeat (apply elem_of_cons in Hx as [Hx|Hx]; [discriminate|]);
      now apply elem_of_nil in Hx|]). apply NoDup_nil. exact I. }
  assert (Hin : 6%N ∈ inodes sample.rootfs).
  { vm_compute.
    repeat first [apply list_elem_of_here | apply list_elem_of_further]. }
  split; [exact Hnd|].
  refine (Walk_reowns_every_entry "/" sample.rootfs sample.root1000
            sample.disk _ Hnd _ 6%N Hin).
  vm_compute. reflexivity.
Defined.

(** One file under two names: container root becomes 1000 at the first name
    and 2000 at the second. *)
Lemma hard_link_is_translated_twice_witness :
  owners (fst (Walk "/" sample_links.linked (chown "/" sample_links.twice)
                 sample_links.disk_root)) !! 2%N = Some (2000, 2000)
  /\ exists mid,
       reowned sample_links.twice sample_links.disk_root mid 2%N
       /\ reowned sample_links.twice mid
            (fst (Walk "/" sample_links.linked (chown "/" sample_links.twice)
                    sample_links.disk_root)) 2%N.
Proof.
  split; [vm_compute; reflexivity|].
  refine (hard_link_is_translated_twice "/" sample_links.linked
            sample_links.twice sample_links.disk_root _ 2%N [1%N] [] []
            eq_refl _ _ _ _).
  - intros Hx. apply elem_of_cons in Hx as [Hx|Hx]; [discriminate|].
    now apply elem_of_nil in Hx.
  - apply not_elem_of_nil.
  - apply not_elem_of_nil.
  - vm_compute. reflexivity.
Defined.

(** The View of a read-only run on a miss comes right after the Commit. *)
Lemma view_only_after_commit_witness :
  exists tr s' f' c' r,
    observe
      (WithMultiRemappedSnapshotView "ctr1" sample.busybox sample.root1000)
      (sample.client memstore.snapshotter) (sample.ctr "ctr1")
      sample.base_only sample.disk
    = (tr, s', f', c', r)
    /\ exists pre,
         tr = pre ++ [ Ev (CCommit sample.key (sample.key +:+ "-remap")) None;
                       Ev (CView "ctr1" sample.key) None ].
Proof.
  eexists _, _, _, _, _.
  assert (Hrun :
    observe (withRemappedSnapshotBase "ctr1" sample.busybox sample.root1000 true)
      (sample.client memstore.snapshotter) (sample.ctr "ctr1")
      sample.base_only sample.disk
    = (_, _, _, _, _))
    by (vm_compute; reflexivity).
  split; [exact Hrun|].
  refine (proj2 (proj2 (view_only_after_commit _ _ _ _ _ _ _ _ _ _ _ _ _
                          "ctr1" sample.key None Hrun _))).
  vm_compute.
  repeat first [apply list_elem_of_here | apply list_elem_of_further].
Defined.

